(** * A shallow embedding of the zknft client module
    (src/nft-ui/lib/zknft/index.ts).

    The module is asynchronous TypeScript.  Every exported function runs as one
    sequence of awaited steps, so a call is modelled as a state-and-exception
    monad over a [world]: the browser's localStorage, the random source used by
    the Ed25519 library, and the HTTP endpoint reached through [fetch].
    A promise that resolves is [Ok v]; a promise that rejects (an exception
    escaping the async function) is [Throw e]. *)

From Stdlib Require Import ZArith List String Ascii Lia.
From stdpp Require Import gmap strings.

Open Scope Z_scope.
Set Warnings "-register-all".

(* ------------------------------------------------------------------ *)
(** ** JavaScript values and outcomes *)

Inductive js_error :=
| TypeError
| RangeError
| SyntaxError
| NetworkError
| StorageError.

Inductive result (A : Type) :=
| Ok (a : A)
| Throw (e : js_error).
Arguments Ok {A} a.
Arguments Throw {A} e.

(** JSON values as [JSON.parse] returns them (integers only); an object is
    the list of its own properties in enumeration order. *)
Inductive jvalue :=
| JNull
| JBool (b : bool)
| JNum (n : Z)
| JStr (s : string)
| JArr (xs : list jvalue)
| JObj (fs : list (string * jvalue)).

(** The text stored under a localStorage key, classified by what
    [JSON.parse] makes of it: the JSON text of an integer array (what
    [setLocalStorage] writes for [Array.from(privKey)]), of an integer,
    the text ["null"], or a text that is empty (falsy) or not JSON
    (so [JSON.parse] throws or is skipped). *)
Inductive stored :=
| SBytes (l : list Z)
| SNum (n : Z)
| SNull
| SUnparsable.

Inductive method := GET | POST.

Record BuyNftQuery := mkQuery {
  nft_id : string;
  payment_sender : string;
  nft_receiver : string
}.

Record request := mkReq {
  req_method : method;
  req_url : string;
  req_body : option BuyNftQuery
}.

(** What the network does with one request: [fetch] rejects, or a response
    arrives with a status and a body ([None] when the body is not JSON). *)
Inductive fetch_result :=
| FetchThrows
| FetchResp (status : Z) (body : option jvalue).

Record response := mkResp {
  resp_status : Z;
  resp_body : option jvalue
}.

Record world := mkWorld {
  ls_readable : bool;              (* localStorage.getItem does not throw *)
  ls_writable : bool;              (* localStorage.setItem does not throw *)
  ls : gmap string stored;         (* localStorage contents *)
  rand : nat -> nat -> Z;          (* byte j of the n-th random draw *)
  rand_ctr : nat;                  (* random draws made so far *)
  net : request -> fetch_result;   (* the remote marketplace API *)
  fetch_log : list request;        (* requests sent, newest first *)
  ta_max_length : Z                (* the engine's largest typed-array length *)
}.

Definition with_ls (w : world) (m : gmap string stored) : world :=
  mkWorld (ls_readable w) (ls_writable w) m (rand w) (rand_ctr w) (net w) (fetch_log w) (ta_max_length w).

Definition with_ctr (w : world) (c : nat) : world :=
  mkWorld (ls_readable w) (ls_writable w) (ls w) (rand w) c (net w) (fetch_log w) (ta_max_length w).

Definition with_log (w : world) (l : list request) : world :=
  mkWorld (ls_readable w) (ls_writable w) (ls w) (rand w) (rand_ctr w) (net w) l (ta_max_length w).

(* ------------------------------------------------------------------ *)
(** ** The async monad *)

Definition M (A : Type) := world -> result A * world.

Definition ret {A} (a : A) : M A := fun w => (Ok a, w).

Definition throw {A} (e : js_error) : M A := fun w => (Throw e, w).

Definition bind {A B} (m : M A) (k : A -> M B) : M B :=
  fun w => match m w with
           | (Ok a, w') => k a w'
           | (Throw e, w') => (Throw e, w')
           end.

Definition lift {A} (r : result A) : M A := fun w => (r, w).

(** [try { m } catch (e) { h(e) }] *)
Definition try_catch {A} (m : M A) (h : js_error -> M A) : M A :=
  fun w => match m w with
           | (Throw e, w') => h e w'
           | r => r
           end.

Notation "'let!' x ':=' m 'in' k" := (bind m (fun x => k))
  (at level 200, x name, m at level 100, k at level 200).

(* ------------------------------------------------------------------ *)
(** ** Byte and number conversions (web3-utils, typed arrays) *)

(** ToUint8: how a number is stored into a Uint8Array element. *)
Definition ToUint8 (n : Z) : Z := n mod 256.

(** [Uint8Array.from(nftId)] for a [number[]]. *)
Definition Uint8Array_from (l : list Z) : list Z := map ToUint8 l.

(** [n.toString(16)] for a digit [0 <= n < 16]. *)
Definition hex_char (n : Z) : ascii :=
  ascii_of_nat (Z.to_nat (if n <? 10 then 48 + n else 87 + n)).

(** web3-utils [bytesToHex]: ["0x"] followed by, for each byte,
    [(b >>> 4).toString(16)] and [(b & 0xF).toString(16)]. *)
Fixpoint hex_body (bs : list Z) : string :=
  match bs with
  | [] => EmptyString
  | b :: bs' => String (hex_char (Z.shiftr b 4)) (String (hex_char (Z.land b 15)) (hex_body bs'))
  end.

Definition bytesToHex (bs : list Z) : string := ("0x" ++ hex_body bs)%string.

Definition hex_value (c : ascii) : option Z :=
  let n := Z.of_nat (nat_of_ascii c) in
  if (48 <=? n) && (n <=? 57) then Some (n - 48)
  else if (97 <=? n) && (n <=? 102) then Some (n - 87)
  else if (65 <=? n) && (n <=? 70) then Some (n - 55)
  else None.

Fixpoint hex_to_Z (s : string) (acc : Z) : option Z :=
  match s with
  | EmptyString => Some acc
  | String c s' =>
      match hex_value c with
      | Some d => hex_to_Z s' (acc * 16 + d)
      | None => None
      end
  end.

Definition dec_char (d : Z) : ascii := ascii_of_nat (Z.to_nat (48 + d)).

Fixpoint dec_aux (fuel : nat) (n : Z) (acc : string) : string :=
  match fuel with
  | O => acc
  | S f =>
      let acc' := String (dec_char (n mod 10)) acc in
      if n <? 10 then acc' else dec_aux f (n / 10) acc'
  end.

(** [BN.toString(10)] of a non-negative integer. *)
Definition Z_toString10 (n : Z) : string :=
  dec_aux (S (Z.to_nat (Z.log2 n))) n EmptyString.

(** web3-utils (4.x) [hexToNumberString]: the value must be strict hex
    (["0x"] then hex digits), else it throws; the digits are read with
    [BigInt], which rejects ["0x"] alone with a SyntaxError; the result is
    the value's decimal text. *)
Definition hexToNumberString (s : string) : result string :=
  match s with
  | String "0" (String "x" EmptyString) => Throw SyntaxError
  | String "0" (String "x" digits) =>
      match hex_to_Z digits 0 with
      | Some n => Ok (Z_toString10 n)
      | None => Throw TypeError
      end
  | _ => Throw TypeError
  end.

(* ------------------------------------------------------------------ *)
(** ** localStorage *)

Definition localStorage_getItem (key : string) : M (option stored) :=
  fun w => if ls_readable w then (Ok (ls w !! key), w) else (Throw StorageError, w).

Definition localStorage_setItem (key : string) (v : stored) : M unit :=
  fun w => if ls_writable w then (Ok tt, with_ls w (<[key := v]> (ls w)))
           else (Throw StorageError, w).

(** The JavaScript values handed to [setLocalStorage]: an array of
    integers (the only kind the module passes), an integer, [null], or a
    value [JSON.stringify] throws on (a BigInt, a cyclic object). *)
Inductive js_value :=
| VNumArray (l : list Z)
| VNumber (n : Z)
| VNull
| VUnserialisable.

Definition JSON_stringify (v : js_value) : result stored :=
  match v with
  | VNumArray l => Ok (SBytes l)
  | VNumber n => Ok (SNum n)
  | VNull => Ok SNull
  | VUnserialisable => Throw TypeError
  end.

(** [setLocalStorage(key, value)]: serialise, then store; either step may
    throw, and the error is logged and dropped. *)
Definition setLocalStorage (key : string) (value : js_value) : M unit :=
  try_catch
    (let! text := lift (JSON_stringify value) in
     localStorage_setItem key text)
    (fun _ => ret tt).

(** What [JSON.parse] returns for the values [getPrivateKey] can read. *)
Inductive parsed :=
| PArr (l : list Z)
| PNum (n : Z).

Definition JSON_parse (s : stored) : result (option parsed) :=
  match s with
  | SBytes l => Ok (Some (PArr l))
  | SNum n => Ok (Some (PNum n))
  | SNull => Ok None
  | SUnparsable => Throw SyntaxError
  end.

(** [getLocalStorage(key)]: [null] when the key is absent or its text is
    empty; any exception of [getItem] or [JSON.parse] is logged and turned
    into [null]. *)
Definition getLocalStorage (key : string) : M (option parsed) :=
  try_catch
    (let! storedValue := localStorage_getItem key in
     match storedValue with
     | None => ret None
     | Some s => lift (JSON_parse s)
     end)
    (fun _ => ret None).

(** [new Uint8Array(seed)]: an array is converted element-wise; a number
    is a length, turned into an index by ToIndex (a RangeError when negative
    or above 2^53 - 1) and refused with a RangeError above the engine's
    largest typed-array length; otherwise that many zero bytes. *)
Definition new_Uint8Array (p : parsed) : M (list Z) :=
  fun w =>
    match p with
    | PArr l => (Ok (map ToUint8 l), w)
    | PNum n =>
        if (n <? 0) || (2 ^ 53 - 1 <? n) || (ta_max_length w <? n)
        then (Throw RangeError, w)
        else (Ok (repeat 0 (Z.to_nat n)), w)
    end.

(* ------------------------------------------------------------------ *)
(** ** Network *)

Definition response_ok (r : response) : bool :=
  (200 <=? resp_status r) && (resp_status r <=? 299).

(** [fetch(url, init)]: the request is sent (logged) whatever happens. *)
Definition fetch (r : request) : M response :=
  fun w =>
    let w' := with_log w (r :: fetch_log w) in
    match net w r with
    | FetchThrows => (Throw NetworkError, w')
    | FetchResp st b => (Ok (mkResp st b), w')
    end.

(** [response.json()] *)
Definition response_json (r : response) : M jvalue :=
  match resp_body r with
  | Some v => ret v
  | None => throw SyntaxError
  end.

Definition listed_url : string := "http://127.0.0.1:7000/listed-nfts/".
Definition buy_url : string := "http://127.0.0.1:7000/buy-nft/".
Definition check_url : string := "http://127.0.0.1:7000/check-payment/".

(* ------------------------------------------------------------------ *)
(** ** Keys (getPrivateKey, buyNFT) *)

Section Keys.

(** The key derivation of [@noble/ed25519] on a 32-byte private key; the
    library itself is outside this repository. *)
Variable ed_pub : list Z -> list Z.

(** [ed.utils.randomPrivateKey()]: 32 fresh random bytes. *)
Definition randomPrivateKey : M (list Z) :=
  fun w => (Ok (map (fun j => ToUint8 (rand w (rand_ctr w) j)) (seq 0 32)),
            with_ctr w (S (rand_ctr w))).

(** [ed.getPublicKeyAsync(priv)]: rejects a key that is not 32 bytes. *)
Definition getPublicKeyAsync (priv : list Z) : M (list Z) :=
  if Nat.eqb (length priv) 32 then ret (ed_pub priv) else throw TypeError.

Definition private_key_slot : string := "my-private-key".

Definition getPrivateKey : M (list Z) :=
  let! seed := getLocalStorage private_key_slot in
  match seed with
  | None =>
      let! privKey := randomPrivateKey in
      let! _u := setLocalStorage private_key_slot (VNumArray privKey) in
      let! _pk := getPublicKeyAsync privKey in   (* console.log(...) *)
      ret privKey
  | Some p => new_Uint8Array p
  end.

Definition buyNFT (paymentSender : string) (nftId : list Z) : M unit :=
  try_catch
    (let! privateKey := getPrivateKey in
     let! publicKey := getPublicKeyAsync privateKey in
     let hex := bytesToHex publicKey in
     let! id := lift (hexToNumberString (bytesToHex (Uint8Array_from nftId))) in
     let buyNftQuery := mkQuery id paymentSender hex in
     let! _response := fetch (mkReq POST buy_url (Some buyNftQuery)) in
     ret tt)
    (fun _ => ret tt).

End Keys.

(* ------------------------------------------------------------------ *)
(** ** checkPayment *)

(** No try/catch: a rejected [fetch] rejects [checkPayment]. *)
Definition checkPayment (nft_id : list Z) : M bool :=
  let! id := lift (hexToNumberString (bytesToHex (Uint8Array_from nft_id))) in
  let! response := fetch (mkReq GET (check_url ++ id)%string None) in
  if response_ok response then ret true else ret false.

(* ------------------------------------------------------------------ *)
(** ** getForSaleNFTs *)

(** An NFT object: its own properties in order. *)
Definition NFT := list (string * jvalue).

(** Object literal property [k: v] after a spread: an existing property is
    overwritten in place, a new one is appended. *)
Definition set_field (o : NFT) (k : string) (v : jvalue) : NFT :=
  if existsb (fun kv => String.eqb (fst kv) k) o
  then map (fun kv => if String.eqb (fst kv) k then (k, v) else kv) o
  else o ++ [(k, v)].

Definition index_props (xs : list jvalue) : NFT :=
  combine (map (fun i => Z_toString10 (Z.of_nat i)) (seq 0 (length xs))) xs.

(** The characters a [for...of] or a spread takes from a string.  A [JStr]
    holds strings whose UTF-16 code units are all below 256, so one ascii
    is one code unit and one code point, and the two agree. *)
Definition char_values (s : string) : list jvalue :=
  map (fun c => JStr (String c EmptyString)) (list_ascii_of_string s).

(** [{...v}]: own enumerable properties of [v]. *)
Definition spread (v : jvalue) : NFT :=
  match v with
  | JObj fs => fs
  | JArr xs => index_props xs
  | JStr s => index_props (char_values s)
  | _ => []
  end.

(** [for (const x of v)]: arrays and strings are iterable, the rest throws. *)
Definition iterate (v : jvalue) : result (list jvalue) :=
  match v with
  | JArr xs => Ok xs
  | JStr s => Ok (char_values s)
  | _ => Throw TypeError
  end.

Definition extend_listing (nft : jvalue) : NFT :=
  set_field (set_field (spread nft) "price" (JNum 10)) "currency_symbol" (JStr "PVL").

Definition getForSaleNFTs : M (list NFT) :=
  try_catch
    (let! response := fetch (mkReq GET listed_url None) in
     if response_ok response then
       let! jsonData := response_json response in
       let! items := lift (iterate jsonData) in
       ret (fold_left (fun nfts_to_return nft => nfts_to_return ++ [extend_listing nft])
                      items [])
     else ret [])
    (fun _ => ret []).

(* ------------------------------------------------------------------ *)
(** ** getMenu *)

(** [MenuType] is declared in ./types, which is not part of the sources;
    [main] is the member the code tests, every other member is [MenuOther]. *)
Inductive MenuType :=
| main
| MenuOther (name : string).

Record Menu := mkMenu { title : string; path : string }.

Definition MenuType_eqb (a b : MenuType) : bool :=
  match a, b with
  | main, main => true
  | MenuOther x, MenuOther y => String.eqb x y
  | _, _ => false
  end.

Definition getMenu (type : MenuType) : M (list Menu) :=
  if MenuType_eqb type main then
    ret [mkMenu "Home" "/"; mkMenu "About" "/about"]
  else
    ret [mkMenu "Home" "/"; mkMenu "About" "/about"].

(* ------------------------------------------------------------------ *)
(** ** Reading functions used in statements *)

(** The value of property [k] of an object ([o[k]]); the first occurrence. *)
Definition prop_lookup (o : NFT) (k : string) : option jvalue :=
  option_map snd (find (fun kv => String.eqb (fst kv) k) o).

Definition is_object (v : jvalue) : bool :=
  match v with JObj _ => true | _ => false end.

(** A lowercase hex digit: 0-9 or a-f. *)
Definition lower_hex_digit (c : ascii) : bool :=
  let n := nat_of_ascii c in
  ((48 <=? n) && (n <=? 57) || (97 <=? n) && (n <=? 102))%nat.

Fixpoint hex_lower (s : string) : bool :=
  match s with
  | EmptyString => true
  | String c s' => lower_hex_digit c && hex_lower s'
  end.

(** Decoding of a string of hex digit pairs into bytes, big-endian. *)
Fixpoint hex_decode (s : string) : option (list Z) :=
  match s with
  | EmptyString => Some []
  | String a (String b s') =>
      match hex_value a, hex_value b, hex_decode s' with
      | Some hi, Some lo, Some rest => Some (hi * 16 + lo :: rest)
      | _, _, _ => None
      end
  | String _ EmptyString => None
  end.

Definition is_byte (b : Z) : Prop := 0 <= b < 256.

(** The big-endian integer value of a byte sequence. *)
Definition be_value (bs : list Z) : Z := fold_left (fun acc b => acc * 256 + b) bs 0.

Definition dec_value (c : ascii) : option Z :=
  let n := Z.of_nat (nat_of_ascii c) in
  if (48 <=? n) && (n <=? 57) then Some (n - 48) else None.

(** Reading a string of decimal digits as an integer. *)
Fixpoint dec_to_Z (s : string) (acc : Z) : option Z :=
  match s with
  | EmptyString => Some acc
  | String c s' =>
      match dec_value c with
      | Some d => dec_to_Z s' (acc * 10 + d)
      | None => None
      end
  end.

(** Canonical decimal text: not empty, and no leading "0" unless the text
    is "0" itself. *)
Definition dec_canonical (s : string) : bool :=
  match s with
  | EmptyString => false
  | String c rest =>
      negb (Ascii.eqb c "0") || match rest with EmptyString => true | _ => false end
  end.

(** The localStorage entry already holds a value [JSON.parse] does not turn
    into [null]. *)
Definition stored_nonnull (o : option stored) : bool :=
  match o with
  | Some (SBytes _) | Some (SNum _) => true
  | _ => false
  end.

(** The seed [randomPrivateKey] draws next in [w]. *)
Definition fresh_key (w : world) : list Z :=
  map (fun j => ToUint8 (rand w (rand_ctr w) j)) (seq 0 32).

(** What [getLocalStorage(private_key_slot)] reads, without its effects. *)
Definition read_seed (w : world) : option parsed :=
  if ls_readable w then
    match ls w !! private_key_slot with
    | Some s => match JSON_parse s with Ok p => p | Throw _ => None end
    | None => None
    end
  else None.

(** Concrete environments. *)
Definition demo_pub (priv : list Z) : list Z := repeat 7 32.

Definition w_demo : world :=
  mkWorld true true ∅ (fun n j => Z.of_nat (n + j)) 0
          (fun _ => FetchResp 200 None) [] (2 ^ 32).

(** The API is unreachable: every [fetch] rejects. *)
Definition w_offline : world :=
  mkWorld true true ∅ (fun n j => Z.of_nat n) 0 (fun _ => FetchThrows) [] (2 ^ 32).

(** localStorage can be read but every write throws (quota exceeded,
    storage disabled for writing), and nothing is stored yet. *)
Definition w_quota : world :=
  mkWorld true false ∅ (fun n j => Z.of_nat n) 0 (fun _ => FetchThrows) [] (2 ^ 32).

(* ------------------------------------------------------------------ *)
(** ** Helper lemmas *)

Lemma fold_push_map {A B} (f : A -> B) (xs : list A) (acc : list B) :
  fold_left (fun l x => l ++ [f x]) xs acc = acc ++ map f xs.
Proof.
  revert acc; induction xs as [|x xs IH]; intros acc; simpl.
  - by rewrite app_nil_r.
  - rewrite IH, <- app_assoc. reflexivity.
Qed.

Lemma find_set_field_same (o : NFT) k v :
  prop_lookup (set_field o k v) k = Some v.
Proof.
  unfold prop_lookup, set_field.
  destruct (existsb _ o) eqn:E.
  - induction o as [|[k' v'] o IH]; simpl in *; [discriminate|].
    destruct (String.eqb k' k) eqn:Ek; simpl.
    + by rewrite String.eqb_refl.
    + rewrite Ek. apply IH. exact E.
  - induction o as [|[k' v'] o IH]; simpl in *.
    + by rewrite String.eqb_refl.
    + apply orb_false_iff in E as [E1 E2]. rewrite E1. apply IH. exact E2.
Qed.

Lemma find_set_field_other (o : NFT) k k' v :
  k' <> k -> prop_lookup (set_field o k' v) k = prop_lookup o k.
Proof.
  intros Hne. unfold prop_lookup, set_field.
  assert (Hk : String.eqb k' k = false) by (apply String.eqb_neq; exact Hne).
  destruct (existsb _ o).
  - induction o as [|[k1 v1] o IH]; simpl; [reflexivity|].
    destruct (String.eqb k1 k') eqn:E1; simpl.
    + apply String.eqb_eq in E1; subst k1. rewrite Hk. exact IH.
    + destruct (String.eqb k1 k); [reflexivity|exact IH].
  - induction o as [|[k1 v1] o IH]; simpl.
    + by rewrite Hk.
    + destruct (String.eqb k1 k); [reflexivity|exact IH].
Qed.

Lemma ToUint8_idem (b : Z) : ToUint8 (ToUint8 b) = ToUint8 b.
Proof. unfold ToUint8. apply Z.mod_mod. lia. Qed.

Lemma hex_char_value (n : Z) : 0 <= n < 16 -> hex_value (hex_char n) = Some n.
Proof.
  intros Hn. rewrite <- (Z2Nat.id n) by lia.
  assert (Hm : (Z.to_nat n < 16)%nat) by lia.
  generalize dependent (Z.to_nat n). intros m Hm.
  do 16 (destruct m as [|m]; [reflexivity|]). lia.
Qed.

Lemma hex_body_decode (bs : list Z) :
  Forall is_byte bs -> hex_decode (hex_body bs) = Some bs.
Proof.
  induction 1 as [|b bs Hb _ IH]; [reflexivity|].
  unfold is_byte in Hb. simpl.
  rewrite (hex_char_value (Z.shiftr b 4)), (hex_char_value (Z.land b 15)), IH.
  - f_equal. f_equal.
    rewrite Z.shiftr_div_pow2 by lia.
    change (Z.land b 15) with (Z.land b (Z.ones 4)).
    rewrite Z.land_ones by lia. change (2 ^ 4) with 16.
    pose proof (Z.div_mod b 16). lia.
  - change (Z.land b 15) with (Z.land b (Z.ones 4)).
    rewrite Z.land_ones by lia. change (2 ^ 4) with 16.
    pose proof (Z.mod_pos_bound b 16). lia.
  - rewrite Z.shiftr_div_pow2 by lia. change (2 ^ 4) with 16.
    split; [apply Z.div_pos | apply Z.div_lt_upper_bound]; lia.
Qed.

Lemma hex_char_lower (n : Z) : 0 <= n < 16 -> lower_hex_digit (hex_char n) = true.
Proof.
  intros Hn. rewrite <- (Z2Nat.id n) by lia.
  assert (Hm : (Z.to_nat n < 16)%nat) by lia.
  generalize dependent (Z.to_nat n). intros m Hm.
  do 16 (destruct m as [|m]; [reflexivity|]). lia.
Qed.

Lemma hex_body_lower (bs : list Z) : Forall is_byte bs -> hex_lower (hex_body bs) = true.
Proof.
  induction 1 as [|b bs Hb _ IH]; [reflexivity|].
  unfold is_byte in Hb. simpl.
  assert (H1 : 0 <= Z.shiftr b 4 < 16).
  { rewrite Z.shiftr_div_pow2 by lia. change (2 ^ 4) with 16.
    split; [apply Z.div_pos | apply Z.div_lt_upper_bound]; lia. }
  assert (H2 : 0 <= Z.land b 15 < 16).
  { change (Z.land b 15) with (Z.land b (Z.ones 4)).
    rewrite Z.land_ones by lia. change (2 ^ 4) with 16.
    pose proof (Z.mod_pos_bound b 16). lia. }
  rewrite IH, (hex_char_lower _ H1), (hex_char_lower _ H2). reflexivity.
Qed.

Lemma hex_body_length (bs : list Z) :
  String.length (hex_body bs) = (2 * length bs)%nat.
Proof. induction bs as [|b bs IH]; simpl; [reflexivity|]. rewrite IH. lia. Qed.

Lemma getLocalStorage_slot (w : world) :
  getLocalStorage private_key_slot w = (Ok (read_seed w), w).
Proof.
  unfold getLocalStorage, read_seed, try_catch, bind, localStorage_getItem.
  destruct (ls_readable w); [|reflexivity].
  destruct (ls w !! private_key_slot) as [s|]; [|reflexivity].
  destruct s; reflexivity.
Qed.

Lemma fresh_key_length (w : world) : length (fresh_key w) = 32%nat.
Proof. unfold fresh_key. by rewrite length_map, length_seq. Qed.

Lemma getPrivateKey_eq (ed_pub : list Z -> list Z) (w : world) :
  getPrivateKey ed_pub w =
    match read_seed w with
    | None =>
        let w1 := with_ctr w (S (rand_ctr w)) in
        (Ok (fresh_key w),
         if ls_writable w
         then with_ls w1 (<[private_key_slot := SBytes (fresh_key w)]> (ls w1))
         else w1)
    | Some p => new_Uint8Array p w
    end.
Proof.
  unfold getPrivateKey. unfold bind at 1. rewrite getLocalStorage_slot.
  destruct (read_seed w) as [p|]; [reflexivity|].
  unfold setLocalStorage.
  unfold bind, randomPrivateKey, try_catch, localStorage_setItem, lift.
  fold (fresh_key w). simpl.
  unfold getPublicKeyAsync. simpl.
  destruct (ls_writable w); reflexivity.
Qed.

Lemma new_Uint8Array_world (p : parsed) (w : world) : snd (new_Uint8Array p w) = w.
Proof.
  destruct p as [l|n]; [reflexivity|]. simpl.
  destruct ((n <? 0) || (2 ^ 53 - 1 <? n) || (ta_max_length w <? n)); reflexivity.
Qed.

Lemma getPrivateKey_log (ed_pub : list Z -> list Z) (w : world) :
  fetch_log (snd (getPrivateKey ed_pub w)) = fetch_log w.
Proof.
  rewrite getPrivateKey_eq.
  destruct (read_seed w); [rewrite new_Uint8Array_world; reflexivity|].
  destruct (ls_writable w); reflexivity.
Qed.

(* ------------------------------------------------------------------ *)
(** ** Claims *)

(** C1 (code_bug): [checkPayment] is said never to reject and to turn a
    thrown network error into [false].  It has no try/catch: when the API
    is unreachable, the [fetch] rejection propagates and [checkPayment]
    rejects instead of resolving to [false]. *)
Theorem checkPayment_rejects_when_offline :
  fst (checkPayment [1; 2; 3] w_offline) = Throw NetworkError.
Proof. vm_compute. reflexivity. Qed.

(** C2 (counterexample): the [nft_receiver] that [buyNFT] sends is
    [bytesToHex] of the public key, which carries the ["0x"] prefix: it has
    66 characters, not 64. *)
Lemma buyNFT_receiver_not_64_chars :
  exists q,
    fetch_log (snd (buyNFT demo_pub "addr1" [1; 2; 3] w_demo)) =
      [mkReq POST buy_url (Some q)] /\
    String.length (nft_receiver q) <> 64%nat.
Proof.
  eexists. split.
  - vm_compute. reflexivity.
  - vm_compute. discriminate.
Qed.

(** C2 (amended): with identifier bytes [1,2,3] and sender "addr1", once
    the identity key [k] is obtained and its 32-byte public key derived,
    [buyNFT] sends exactly one request: a POST to /buy-nft/ whose
    [nft_id] is "66051", whose [payment_sender] is "addr1" and whose
    [nft_receiver] is "0x" followed by 64 hex digits that decode to the
    public key bytes (66 characters in all). *)
Theorem buyNFT_request_for_1_2_3 (ed_pub : list Z -> list Z) (w w1 : world) (k : list Z) :
  getPrivateKey ed_pub w = (Ok k, w1) ->
  length k = 32%nat ->
  length (ed_pub k) = 32%nat ->
  Forall is_byte (ed_pub k) ->
  exists hex,
    fetch_log (snd (buyNFT ed_pub "addr1" [1; 2; 3] w)) =
      mkReq POST buy_url (Some (mkQuery "66051" "addr1" ("0x" ++ hex)%string)) :: fetch_log w /\
    ("0x" ++ hex)%string = bytesToHex (ed_pub k) /\
    String.length ("0x" ++ hex)%string = 66%nat /\
    String.length hex = 64%nat /\
    hex_lower hex = true /\
    hex_decode hex = Some (ed_pub k).
Proof.
  intros Hk Hlen Hplen Hbytes.
  exists (hex_body (ed_pub k)).
  pose proof (getPrivateKey_log ed_pub w) as Hlog. rewrite Hk in Hlog. simpl in Hlog.
  split; [|split; [|split; [|split; [|split]]]].
  2: reflexivity.
  2: change (String.length ("0x" ++ hex_body (ed_pub k))%string)
         with (S (S (String.length (hex_body (ed_pub k)))));
     rewrite hex_body_length, Hplen; reflexivity.
  2: rewrite hex_body_length, Hplen; reflexivity.
  2: apply hex_body_lower; exact Hbytes.
  2: apply hex_body_decode; exact Hbytes.
  assert (Hid : hexToNumberString (bytesToHex (Uint8Array_from [1; 2; 3])) = Ok "66051")
    by reflexivity.
  unfold buyNFT. rewrite Hid.
  unfold try_catch, bind at 1. rewrite Hk.
  unfold getPublicKeyAsync. rewrite Hlen. simpl.
  unfold bind, fetch, lift, ret. simpl.
  rewrite <- Hlog. destruct (net w1 _); reflexivity.
Qed.

Lemma buyNFT_request_for_1_2_3_witness :
  exists hex,
    fetch_log (snd (buyNFT demo_pub "addr1" [1; 2; 3] w_demo)) =
      mkReq POST buy_url (Some (mkQuery "66051" "addr1" ("0x" ++ hex)%string)) :: fetch_log w_demo /\
    ("0x" ++ hex)%string = bytesToHex (demo_pub (fresh_key w_demo)) /\
    String.length ("0x" ++ hex)%string = 66%nat /\
    String.length hex = 64%nat /\
    hex_lower hex = true /\
    hex_decode hex = Some (demo_pub (fresh_key w_demo)).
Proof.
  apply (buyNFT_request_for_1_2_3 demo_pub w_demo (snd (getPrivateKey demo_pub w_demo))
           (fresh_key w_demo)).
  - vm_compute. reflexivity.
  - vm_compute. reflexivity.
  - vm_compute. reflexivity.
  - unfold demo_pub. simpl.
    repeat (apply List.Forall_cons; [unfold is_byte; lia|]). apply List.Forall_nil.
Defined.

(** C3: [getForSaleNFTs] resolves to [[]] when the fetch rejects or the
    status is not 2xx; when a 2xx response carries a JSON array of listing
    records, it resolves to exactly those records in order, each extended
    with [price = 10] and [currency_symbol = "PVL"]. *)
Theorem getForSaleNFTs_results (w : world) :
  let r := net w (mkReq GET listed_url None) in
  (r = FetchThrows -> fst (getForSaleNFTs w) = Ok []) /\
  (forall st b, r = FetchResp st b -> ~ (200 <= st <= 299) ->
     fst (getForSaleNFTs w) = Ok []) /\
  (forall st xs, r = FetchResp st (Some (JArr xs)) -> 200 <= st <= 299 ->
     Forall (fun x => is_object x = true) xs ->
     fst (getForSaleNFTs w) = Ok (map extend_listing xs) /\
     Forall (fun o => prop_lookup o "price" = Some (JNum 10) /\
                      prop_lookup o "currency_symbol" = Some (JStr "PVL"))
            (map extend_listing xs)).
Proof.
  intros r. unfold getForSaleNFTs, try_catch, bind, fetch, response_ok. simpl.
  split; [|split].
  - intros Hr. unfold r in Hr. rewrite Hr. reflexivity.
  - intros st b Hr Hst. unfold r in Hr. rewrite Hr. simpl.
    destruct ((200 <=? st) && (st <=? 299)) eqn:E; [|reflexivity].
    apply andb_true_iff in E as [E1 E2]. apply Z.leb_le in E1, E2. lia.
  - intros st xs Hr Hst _. unfold r in Hr. rewrite Hr. simpl.
    assert (E : (200 <=? st) && (st <=? 299) = true)
      by (apply andb_true_iff; split; apply Z.leb_le; lia).
    rewrite E. simpl. rewrite fold_push_map. simpl. split; [reflexivity|].
    apply List.Forall_forall. intros o Ho. apply in_map_iff in Ho as [x [<- _]].
    unfold extend_listing. split.
    + rewrite find_set_field_other by discriminate. apply find_set_field_same.
    + apply find_set_field_same.
Qed.

(** C4 (counterexample): when localStorage can be read but not written,
    nothing is ever stored under "my-private-key"; the stored value stays
    the same (absent) and yet two sequential calls return different seeds. *)
Lemma getPrivateKey_two_seeds_when_write_fails :
  let w1 := snd (getPrivateKey demo_pub w_quota) in
  ls w1 = ls w_quota /\
  fst (getPrivateKey demo_pub w1) <> fst (getPrivateKey demo_pub w_quota).
Proof.
  split.
  - vm_compute. reflexivity.
  - vm_compute. discriminate.
Qed.

(** C4 (amended): when localStorage can be read, and either the write of a
    fresh seed succeeds or the entry already holds a non-null value, two
    sequential calls of [getPrivateKey] (no external mutation in between)
    return the same result, in particular the same byte sequence. *)
Theorem getPrivateKey_idempotent (ed_pub : list Z -> list Z) (w : world) :
  ls_readable w = true ->
  (ls_writable w = true \/ stored_nonnull (ls w !! private_key_slot) = true) ->
  fst (getPrivateKey ed_pub (snd (getPrivateKey ed_pub w))) = fst (getPrivateKey ed_pub w).
Proof.
  intros Hr Hw.
  rewrite (getPrivateKey_eq ed_pub w).
  destruct (read_seed w) as [p|] eqn:Hs.
  - rewrite new_Uint8Array_world, getPrivateKey_eq, Hs. reflexivity.
  - assert (Hwr : ls_writable w = true).
    { destruct Hw as [Hw|Hw]; [exact Hw|].
      unfold read_seed in Hs. rewrite Hr in Hs.
      destruct (ls w !! private_key_slot) as [[]|]; simpl in *; discriminate. }
    rewrite Hwr. cbn [fst snd]. rewrite getPrivateKey_eq.
    unfold read_seed. cbn [ls_readable ls with_ls with_ctr].
    rewrite Hr, lookup_insert_eq. cbn [JSON_parse new_Uint8Array fst].
    f_equal. unfold fresh_key. rewrite List.map_map.
    apply map_ext. intros j. apply ToUint8_idem.
Qed.

Lemma getPrivateKey_idempotent_witness :
  fst (getPrivateKey demo_pub (snd (getPrivateKey demo_pub w_demo)))
  = fst (getPrivateKey demo_pub w_demo).
Proof.
  apply getPrivateKey_idempotent.
  - reflexivity.
  - left. reflexivity.
Defined.

(** C5: [buyNFT] never rejects: for every sender, identifier and world
    (storage, random source and network behaving in any way) it resolves
    to [undefined]. *)
Theorem buyNFT_never_rejects (ed_pub : list Z -> list Z) (paymentSender : string)
    (nftId : list Z) (w : world) :
  fst (buyNFT ed_pub paymentSender nftId w) = Ok tt.
Proof.
  unfold buyNFT, try_catch.
  match goal with
  | |- context [match ?m w with _ => _ end] => destruct (m w) as [[[]|e] w']
  end; reflexivity.
Qed.

(** C6: when the storage read fails ([getItem] throws, or the stored text
    is empty or not JSON), [getPrivateKey] does not reject: it draws a fresh
    32-byte seed, stores it if the store accepts the write, and resolves to
    that fresh seed. *)
Theorem getPrivateKey_read_failure (ed_pub : list Z -> list Z) (w : world) :
  ls_readable w = false \/ ls w !! private_key_slot = Some SUnparsable ->
  let w1 := with_ctr w (S (rand_ctr w)) in
  getPrivateKey ed_pub w =
    (Ok (fresh_key w),
     if ls_writable w
     then with_ls w1 (<[private_key_slot := SBytes (fresh_key w)]> (ls w1))
     else w1) /\
  length (fresh_key w) = 32%nat.
Proof.
  intros Hfail w1. split; [|apply fresh_key_length].
  rewrite getPrivateKey_eq.
  assert (Hs : read_seed w = None).
  { unfold read_seed. destruct Hfail as [H|H]; rewrite H; [reflexivity|].
    destruct (ls_readable w); reflexivity. }
  rewrite Hs. reflexivity.
Qed.

Lemma getPrivateKey_read_failure_witness :
  let w := mkWorld true true {[private_key_slot := SUnparsable]}
                   (fun n j => Z.of_nat (n + j)) 0 (fun _ => FetchThrows) [] (2 ^ 32) in
  let w1 := with_ctr w (S (rand_ctr w)) in
  getPrivateKey demo_pub w =
    (Ok (fresh_key w),
     if ls_writable w
     then with_ls w1 (<[private_key_slot := SBytes (fresh_key w)]> (ls w1))
     else w1) /\
  length (fresh_key w) = 32%nat.
Proof.
  apply getPrivateKey_read_failure. right. reflexivity.
Defined.

(** C9: [getMenu] ignores its argument: for every menu type it resolves to
    [[{Home, /}, {About, /about}]] and touches no state. *)
Theorem getMenu_constant (type : MenuType) (w : world) :
  getMenu type w = (Ok [mkMenu "Home" "/"; mkMenu "About" "/about"], w).
Proof. unfold getMenu. destruct (MenuType_eqb type main); reflexivity. Qed.

(** C10: [buyNFT] and [checkPayment] encode an NFT id alike: when [buyNFT]
    posts a query [q] for [nftId], [checkPayment nftId] (from any world)
    requests the URL /check-payment/ followed by exactly [q]'s [nft_id]. *)
Theorem nft_id_encoding_agrees (ed_pub : list Z -> list Z) (paymentSender : string)
    (nftId : list Z) (w : world) (q : BuyNftQuery) (w' : world) :
  fetch_log (snd (buyNFT ed_pub paymentSender nftId w)) =
    mkReq POST buy_url (Some q) :: fetch_log w ->
  fetch_log (snd (checkPayment nftId w')) =
    mkReq GET (check_url ++ nft_id q)%string None :: fetch_log w'.
Proof.
  unfold buyNFT, checkPayment, try_catch, bind at 1.
  pose proof (getPrivateKey_log ed_pub w) as Hlog.
  destruct (hexToNumberString (bytesToHex (Uint8Array_from nftId))) as [s|err].
  2:{ destruct (getPrivateKey ed_pub w) as [[k|e] w1]; simpl in Hlog |- *;
      unfold bind, getPublicKeyAsync, lift, ret, throw;
      [destruct (Nat.eqb (length k) 32)|]; simpl; rewrite ?Hlog;
      intros Hc; apply (f_equal (@length _)) in Hc; simpl in Hc; lia. }
  destruct (getPrivateKey ed_pub w) as [[k|e] w1]; simpl in Hlog |- *.
  2:{ rewrite Hlog. intros Hc. apply (f_equal (@length _)) in Hc. simpl in Hc. lia. }
  unfold bind at 1, getPublicKeyAsync.
  destruct (Nat.eqb (length k) 32); simpl.
  2:{ rewrite Hlog. intros Hc. apply (f_equal (@length _)) in Hc. simpl in Hc. lia. }
  intros Hc. unfold bind, lift, ret, fetch in Hc. simpl in Hc.
  assert (Hq : mkQuery s paymentSender (bytesToHex (ed_pub k)) = q).
  { destruct (net w1 _); simpl in Hc; injection Hc; intros; congruence. }
  subst q. unfold bind, lift, ret, fetch. simpl.
  destruct (net w' _); [reflexivity|]. simpl. destruct (response_ok _); reflexivity.
Qed.

Lemma nft_id_encoding_agrees_witness :
  fetch_log (snd (checkPayment [1; 2; 3] w_offline)) =
    mkReq GET (check_url ++ "66051")%string None :: fetch_log w_offline.
Proof.
  apply (nft_id_encoding_agrees demo_pub "addr1" [1; 2; 3] w_demo
           (mkQuery "66051" "addr1" (bytesToHex (demo_pub (fresh_key w_demo)))) w_offline).
  vm_compute. reflexivity.
Defined.

(* ------------------------------------------------------------------ *)
(** ** Further properties of the module *)

(** X1: [setLocalStorage] never rejects.  When [JSON.stringify] accepts
    the value and the store accepts writes, it sets [key] to the JSON text
    and leaves every other key as it was; when serialisation throws (a
    BigInt, a cyclic object) or the write throws, the error is swallowed and
    nothing changes. *)
Theorem setLocalStorage_effect (key : string) (value : js_value) (w : world) :
  fst (setLocalStorage key value w) = Ok tt /\
  (forall text, JSON_stringify value = Ok text -> ls_writable w = true ->
     ls (snd (setLocalStorage key value w)) !! key = Some text /\
     forall k, k <> key -> ls (snd (setLocalStorage key value w)) !! k = ls w !! k) /\
  (ls_writable w = false \/ value = VUnserialisable -> snd (setLocalStorage key value w) = w).
Proof.
  unfold setLocalStorage, try_catch, bind, lift, localStorage_setItem, ret.
  destruct (JSON_stringify value) as [text|e] eqn:Hv.
  - destruct (ls_writable w) eqn:Hw; simpl.
    + split; [reflexivity|]. split.
      * intros t Ht _. injection Ht as Ht. subst t. split; [apply lookup_insert_eq|].
        intros k Hk. apply lookup_insert_ne. congruence.
      * intros [H|H]; [discriminate|rewrite H in Hv; discriminate].
    + split; [reflexivity|]. split; [intros t _ H; discriminate|reflexivity].
  - simpl. split; [reflexivity|]. split; [intros t Ht; discriminate|reflexivity].
Qed.



(** X3: [getLocalStorage] never rejects and never changes any state; it
    yields [null] when the key is absent, when the store cannot be read,
    and when the stored text is empty or not JSON. *)
Theorem getLocalStorage_total (key : string) (w : world) :
  snd (getLocalStorage key w) = w /\
  (exists v, fst (getLocalStorage key w) = Ok v) /\
  ((ls_readable w = false \/ ls w !! key = None \/ ls w !! key = Some SUnparsable) ->
   fst (getLocalStorage key w) = Ok None).
Proof.
  unfold getLocalStorage, try_catch, bind, localStorage_getItem, lift, ret.
  destruct (ls_readable w) eqn:Hr; simpl.
  - destruct (ls w !! key) as [[]|] eqn:Hk; simpl;
      (split; [reflexivity|split; [eexists; reflexivity|]]);
      intros [H|[H|H]]; congruence.
  - split; [reflexivity|split; [eexists; reflexivity|]]. intros _. reflexivity.
Qed.

Lemma hex_to_Z_body (bs : list Z) (acc : Z) :
  Forall is_byte bs ->
  hex_to_Z (hex_body bs) acc = Some (fold_left (fun a b => a * 256 + b) bs acc).
Proof.
  intros Hb. revert acc. induction Hb as [|b bs Hb _ IH]; intros acc; [reflexivity|].
  unfold is_byte in Hb. simpl.
  rewrite (hex_char_value (Z.shiftr b 4)), (hex_char_value (Z.land b 15)).
  - rewrite IH. f_equal. f_equal.
    rewrite Z.shiftr_div_pow2 by lia.
    change (Z.land b 15) with (Z.land b (Z.ones 4)).
    rewrite Z.land_ones by lia. change (2 ^ 4) with 16.
    pose proof (Z.div_mod b 16). lia.
  - change (Z.land b 15) with (Z.land b (Z.ones 4)).
    rewrite Z.land_ones by lia. change (2 ^ 4) with 16.
    pose proof (Z.mod_pos_bound b 16). lia.
  - rewrite Z.shiftr_div_pow2 by lia. change (2 ^ 4) with 16.
    split; [apply Z.div_pos | apply Z.div_lt_upper_bound]; lia.
Qed.

Lemma dec_char_value (d : Z) : 0 <= d < 10 -> dec_value (dec_char d) = Some d.
Proof.
  intros Hd. rewrite <- (Z2Nat.id d) by lia.
  assert (Hm : (Z.to_nat d < 10)%nat) by lia.
  generalize dependent (Z.to_nat d). intros m Hm.
  do 10 (destruct m as [|m]; [reflexivity|]). lia.
Qed.

Lemma dec_aux_decode (fuel : nat) (n : Z) (acc : string) :
  0 <= n < 2 ^ Z.of_nat fuel ->
  dec_to_Z (dec_aux fuel n acc) 0 = dec_to_Z acc n.
Proof.
  revert n acc. induction fuel as [|f IH]; intros n acc Hn; simpl.
  - replace n with 0 by (simpl in Hn; lia). reflexivity.
  - assert (Hd : dec_value (dec_char (n mod 10)) = Some (n mod 10))
      by (apply dec_char_value; apply Z.mod_pos_bound; lia).
    destruct (n <? 10) eqn:Hlt.
    + apply Z.ltb_lt in Hlt. simpl. rewrite Hd.
      rewrite Z.mod_small by lia. reflexivity.
    + apply Z.ltb_ge in Hlt. rewrite IH.
      * simpl. rewrite Hd. f_equal. pose proof (Z.div_mod n 10). lia.
      * rewrite Nat2Z.inj_succ, Z.pow_succ_r in Hn by lia.
        split; [apply Z.div_pos; lia|].
        apply Z.div_lt_upper_bound; [lia|]. lia.
Qed.

Lemma Z_toString10_decode (n : Z) : 0 <= n -> dec_to_Z (Z_toString10 n) 0 = Some n.
Proof.
  intros Hn. unfold Z_toString10. rewrite dec_aux_decode; [reflexivity|].
  split; [exact Hn|].
  rewrite Nat2Z.inj_succ, Z2Nat.id by (apply Z.log2_nonneg).
  destruct (Z.eq_dec n 0) as [->|Hne]; [reflexivity|].
  destruct (Z.log2_spec n) as [_ H]; [lia|]. rewrite <- Z.add_1_r. exact H.
Qed.

Lemma ToUint8_byte (n : Z) : is_byte (ToUint8 n).
Proof. unfold is_byte, ToUint8. apply Z.mod_pos_bound. lia. Qed.

Lemma Uint8Array_from_bytes (l : list Z) : Forall is_byte (Uint8Array_from l).
Proof.
  unfold Uint8Array_from. induction l; simpl; constructor; [apply ToUint8_byte|assumption].
Qed.

Lemma fold_be_nonneg (bs : list Z) (acc : Z) :
  Forall is_byte bs -> 0 <= acc -> 0 <= fold_left (fun a b => a * 256 + b) bs acc.
Proof.
  intros Hb. revert acc. induction Hb as [|b bs Hb _ IH]; intros acc Ha; simpl; [lia|].
  apply IH. unfold is_byte in Hb. lia.
Qed.




(** X4: web3-utils [bytesToHex], as used on the public key and on NFT ids,
    yields "0x" followed by two hex digits per byte, and those digits decode
    back to the bytes. *)
Theorem bytesToHex_roundtrip (bs : list Z) :
  Forall is_byte bs ->
  exists digits, bytesToHex bs = ("0x" ++ digits)%string /\
    String.length digits = (2 * length bs)%nat /\ hex_decode digits = Some bs.
Proof.
  intros Hb. exists (hex_body bs). split; [reflexivity|].
  split; [apply hex_body_length|apply hex_body_decode; exact Hb].
Qed.

Lemma bytesToHex_roundtrip_witness :
  exists digits, bytesToHex [0; 171; 255] = ("0x" ++ digits)%string /\
    String.length digits = (2 * length [0; 171; 255])%nat /\
    hex_decode digits = Some [0; 171; 255].
Proof.
  apply bytesToHex_roundtrip.
  repeat (apply List.Forall_cons; [unfold is_byte; lia|]). apply List.Forall_nil.
Defined.

Lemma dec_aux_lead (fuel : nat) (n : Z) (acc : string) :
  0 < n < 2 ^ Z.of_nat fuel ->
  exists d rest, 1 <= d < 10 /\ dec_aux fuel n acc = String (dec_char d) rest.
Proof.
  revert n acc. induction fuel as [|f IH]; intros n acc Hn; simpl.
  - simpl in Hn. lia.
  - destruct (n <? 10) eqn:Hlt.
    + apply Z.ltb_lt in Hlt. exists n, acc. rewrite Z.mod_small by lia. split; [lia|reflexivity].
    + apply Z.ltb_ge in Hlt. apply IH.
      rewrite Nat2Z.inj_succ, Z.pow_succ_r in Hn by lia.
      split; [apply Z.div_str_pos; lia|].
      apply Z.div_lt_upper_bound; [lia|]. lia.
Qed.

Lemma Z_toString10_canonical (n : Z) : 0 <= n -> dec_canonical (Z_toString10 n) = true.
Proof.
  intros Hn. destruct (Z.eq_dec n 0) as [->|Hne]; [reflexivity|].
  unfold Z_toString10.
  destruct (dec_aux_lead (S (Z.to_nat (Z.log2 n))) n EmptyString) as [d [rest [Hd E]]].
  { split; [lia|]. rewrite Nat2Z.inj_succ, Z2Nat.id by (apply Z.log2_nonneg).
    destruct (Z.log2_spec n) as [_ H]; [lia|]. rewrite <- Z.add_1_r. exact H. }
  rewrite E. simpl.
  destruct (Ascii.eqb (dec_char d) "0") eqn:Ec; [|reflexivity].
  apply Ascii.eqb_eq in Ec.
  pose proof (dec_char_value d ltac:(lia)) as Hv. rewrite Ec in Hv.
  vm_compute in Hv. injection Hv as Hv. lia.
Qed.


Lemma be_value_nonneg (bs : list Z) : Forall is_byte bs -> 0 <= be_value bs.
Proof. intros Hb. unfold be_value. apply fold_be_nonneg; [exact Hb|lia]. Qed.

Lemma hexToNumberString_bytes (bs : list Z) :
  bs <> [] -> Forall is_byte bs ->
  hexToNumberString (bytesToHex bs) = Ok (Z_toString10 (be_value bs)).
Proof.
  intros Hne Hb.
  assert (E : bytesToHex bs = String "0" (String "x" (hex_body bs))) by reflexivity.
  rewrite E. destruct (hex_body bs) as [|c rest] eqn:Hh.
  - destruct bs; [contradiction|].
    pose proof (hex_body_length (z :: bs)) as Hl. rewrite Hh in Hl. simpl in Hl. lia.
  - unfold hexToNumberString. cbv beta iota.
    rewrite <- Hh, hex_to_Z_body by exact Hb. reflexivity.
Qed.

Lemma Uint8Array_from_nonempty (l : list Z) : l <> [] -> Uint8Array_from l <> [].
Proof. destruct l; [contradiction|discriminate]. Qed.

(** X5: for a non-empty [number[]], the NFT-id string that [buyNFT] and
    [checkPayment] compute does not throw, and it is the canonical decimal
    text (no leading zero unless it is "0") of the big-endian value of the
    array's bytes (each element reduced modulo 256 by [Uint8Array.from]). *)
Theorem nft_id_string_value (nftId : list Z) :
  nftId <> [] ->
  exists s, hexToNumberString (bytesToHex (Uint8Array_from nftId)) = Ok s /\
    dec_to_Z s 0 = Some (be_value (Uint8Array_from nftId)) /\
    dec_canonical s = true.
Proof.
  intros Hne. pose proof (Uint8Array_from_bytes nftId) as Hb.
  exists (Z_toString10 (be_value (Uint8Array_from nftId))). split; [|split].
  - apply hexToNumberString_bytes; [apply Uint8Array_from_nonempty; exact Hne|exact Hb].
  - apply Z_toString10_decode, be_value_nonneg, Hb.
  - apply Z_toString10_canonical, be_value_nonneg, Hb.
Qed.

Lemma nft_id_string_value_witness :
  [1; 2; 3] <> [] /\
  exists s, hexToNumberString (bytesToHex (Uint8Array_from [1; 2; 3])) = Ok s /\
    dec_to_Z s 0 = Some (be_value (Uint8Array_from [1; 2; 3])) /\
    dec_canonical s = true.
Proof.
  split; [discriminate|]. apply (nft_id_string_value [1; 2; 3]). discriminate.
Defined.

(** X17: for the empty id, "0x" alone reaches [hexToNumberString], which
    throws a SyntaxError: [checkPayment] rejects without sending a request
    and without touching the world. *)
Theorem checkPayment_empty_id (w : world) :
  hexToNumberString (bytesToHex (Uint8Array_from [])) = Throw SyntaxError /\
  checkPayment [] w = (Throw SyntaxError, w).
Proof. split; reflexivity. Qed.

(** X6: leading zero bytes do not change the NFT-id string of a non-empty
    id: an id with [k] extra leading zeros is sent and checked under the
    same decimal string. *)
Theorem nft_id_string_leading_zeros (k : nat) (nftId : list Z) :
  nftId <> [] ->
  hexToNumberString (bytesToHex (Uint8Array_from (repeat 0 k ++ nftId)))
  = hexToNumberString (bytesToHex (Uint8Array_from nftId)).
Proof.
  intros Hne.
  assert (Hne' : repeat 0 k ++ nftId <> []) by (destruct nftId; [contradiction|];
    intros H; apply app_eq_nil in H as [_ H]; discriminate).
  rewrite !hexToNumberString_bytes;
    try (apply Uint8Array_from_nonempty; assumption); try apply Uint8Array_from_bytes.
  f_equal. unfold Uint8Array_from, be_value. rewrite map_app, fold_left_app.
  assert (Z0 : fold_left (fun acc b => acc * 256 + b) (map ToUint8 (repeat 0 k)) 0 = 0).
  { clear Hne'. induction k as [|k IH]; [reflexivity|]. exact IH. }
  rewrite Z0. reflexivity.
Qed.

Lemma nft_id_string_leading_zeros_witness :
  [7] <> [] /\
  hexToNumberString (bytesToHex (Uint8Array_from (repeat 0 2 ++ [7])))
  = hexToNumberString (bytesToHex (Uint8Array_from [7])).
Proof. split; [discriminate|]. apply (nft_id_string_leading_zeros 2 [7]). discriminate. Defined.



(** X8: when the [fetch] of [checkPayment] resolves, [checkPayment]
    resolves to [true] exactly for a status in 200..299; it sends exactly
    that one GET and changes nothing else. *)
Theorem checkPayment_resolved (nftId : list Z) (w : world) (s : string) (st : Z)
    (body : option jvalue) :
  hexToNumberString (bytesToHex (Uint8Array_from nftId)) = Ok s ->
  net w (mkReq GET (check_url ++ s)%string None) = FetchResp st body ->
  checkPayment nftId w =
    (Ok ((200 <=? st) && (st <=? 299)),
     with_log w (mkReq GET (check_url ++ s)%string None :: fetch_log w)).
Proof.
  intros Hs Hn. unfold checkPayment, bind, lift. rewrite Hs.
  unfold fetch. rewrite Hn. unfold response_ok. simpl.
  destruct ((200 <=? st) && (st <=? 299)); reflexivity.
Qed.

Lemma checkPayment_resolved_witness :
  checkPayment [1; 2; 3] w_demo =
    (Ok ((200 <=? 200) && (200 <=? 299)),
     with_log w_demo (mkReq GET (check_url ++ "66051")%string None :: fetch_log w_demo)).
Proof. apply (checkPayment_resolved [1; 2; 3] w_demo "66051" 200 None); reflexivity. Defined.

(** X9: [getForSaleNFTs] never rejects, and its only effect is the one GET
    it sends to /listed-nfts/. *)
Theorem getForSaleNFTs_effect (w : world) :
  (exists nfts, fst (getForSaleNFTs w) = Ok nfts) /\
  snd (getForSaleNFTs w) = with_log w (mkReq GET listed_url None :: fetch_log w).
Proof.
  unfold getForSaleNFTs, try_catch, bind, fetch, response_json, lift, ret, throw.
  destruct (net w _) as [|st [v|]]; simpl.
  - split; [eexists; reflexivity|reflexivity].
  - destruct (response_ok _); simpl; [destruct (iterate v)|]; simpl;
      (split; [eexists; reflexivity|reflexivity]).
  - destruct (response_ok _); simpl; (split; [eexists; reflexivity|reflexivity]).
Qed.

(** X10: a 2xx response whose body is not JSON, or is JSON [null], a
    boolean, a number or an object (not iterable), makes [getForSaleNFTs]
    resolve to [[]]. *)
Theorem getForSaleNFTs_bad_body (w : world) (st : Z) (body : option jvalue) :
  net w (mkReq GET listed_url None) = FetchResp st body ->
  200 <= st <= 299 ->
  (match body with
   | None | Some JNull | Some (JBool _) | Some (JNum _) | Some (JObj _) => True
   | _ => False
   end) ->
  fst (getForSaleNFTs w) = Ok [].
Proof.
  intros Hn Hst Hb.
  unfold getForSaleNFTs, try_catch, bind, fetch, response_json, lift, ret, throw.
  rewrite Hn. unfold response_ok. simpl.
  assert (E : (200 <=? st) && (st <=? 299) = true)
    by (apply andb_true_iff; split; apply Z.leb_le; lia).
  rewrite E. destruct body as [[]|]; simpl in *; try contradiction; reflexivity.
Qed.

Lemma getForSaleNFTs_bad_body_witness :
  fst (getForSaleNFTs w_demo) = Ok [].
Proof. apply (getForSaleNFTs_bad_body w_demo 200 None); [reflexivity|lia|exact I]. Defined.

(** X13: when localStorage is readable and writable and holds no usable
    key, [getPrivateKey] stores the seed it returns under
    "my-private-key" as its byte array, so the next read finds it. *)
Theorem getPrivateKey_persists (ed_pub : list Z -> list Z) (w : world) :
  ls_readable w = true -> ls_writable w = true -> read_seed w = None ->
  exists k, fst (getPrivateKey ed_pub w) = Ok k /\
    ls (snd (getPrivateKey ed_pub w)) !! private_key_slot = Some (SBytes k) /\
    read_seed (snd (getPrivateKey ed_pub w)) = Some (PArr k).
Proof.
  intros Hr Hw Hs. rewrite getPrivateKey_eq, Hs, Hw. exists (fresh_key w).
  split; [reflexivity|]. simpl. rewrite lookup_insert_eq.
  split; [reflexivity|]. unfold read_seed. simpl. rewrite Hr, lookup_insert_eq. reflexivity.
Qed.

Lemma getPrivateKey_persists_witness :
  exists k, fst (getPrivateKey demo_pub w_demo) = Ok k /\
    ls (snd (getPrivateKey demo_pub w_demo)) !! private_key_slot = Some (SBytes k) /\
    read_seed (snd (getPrivateKey demo_pub w_demo)) = Some (PArr k).
Proof. apply getPrivateKey_persists; reflexivity. Defined.

(** X14: when a value is stored under "my-private-key" and can be read,
    [getPrivateKey] changes no state and draws no randomness: a stored
    array is returned with each element reduced modulo 256; a stored
    integer [n] gives [n] zero bytes when [new Uint8Array(n)] accepts the
    length, and makes it reject with a RangeError when [n] is negative,
    above 2^53 - 1 or above the engine's typed-array length limit. *)
Theorem getPrivateKey_stored (ed_pub : list Z -> list Z) (w : world) :
  ls_readable w = true ->
  (forall l, ls w !! private_key_slot = Some (SBytes l) ->
     getPrivateKey ed_pub w = (Ok (map ToUint8 l), w)) /\
  (forall n, ls w !! private_key_slot = Some (SNum n) ->
     getPrivateKey ed_pub w =
       if (n <? 0) || (2 ^ 53 - 1 <? n) || (ta_max_length w <? n)
       then (Throw RangeError, w) else (Ok (repeat 0 (Z.to_nat n)), w)).
Proof.
  intros Hr. split; intros x Hx; rewrite getPrivateKey_eq; unfold read_seed;
    rewrite Hr, Hx; reflexivity.
Qed.

Lemma getPrivateKey_stored_witness :
  getPrivateKey demo_pub (with_ls w_demo {[private_key_slot := SNum (-1)]})
  = (Throw RangeError, with_ls w_demo {[private_key_slot := SNum (-1)]}).
Proof.
  destruct (getPrivateKey_stored demo_pub (with_ls w_demo {[private_key_slot := SNum (-1)]}))
    as [_ H]; [reflexivity|].
  apply (H (-1)). reflexivity.
Defined.

Lemma getPrivateKey_ls (ed_pub : list Z -> list Z) (w : world) :
  ls (snd (getPrivateKey ed_pub w)) = ls w \/
  ls (snd (getPrivateKey ed_pub w)) = <[private_key_slot := SBytes (fresh_key w)]> (ls w).
Proof.
  rewrite getPrivateKey_eq. destruct (read_seed w).
  - left. rewrite new_Uint8Array_world. reflexivity.
  - destruct (ls_writable w); simpl; [right|left]; reflexivity.
Qed.

(** X15: [buyNFT] touches localStorage at most by storing a freshly
    generated identity key, and sends at most one request, a POST to
    /buy-nft/. *)
Theorem buyNFT_effect (ed_pub : list Z -> list Z) (paymentSender : string)
    (nftId : list Z) (w : world) :
  let w' := snd (buyNFT ed_pub paymentSender nftId w) in
  (ls w' = ls w \/ ls w' = <[private_key_slot := SBytes (fresh_key w)]> (ls w)) /\
  (fetch_log w' = fetch_log w \/
   exists q, fetch_log w' = mkReq POST buy_url (Some q) :: fetch_log w).
Proof.
  intros w'. unfold w'. clear w'.
  pose proof (getPrivateKey_ls ed_pub w) as Hls.
  pose proof (getPrivateKey_log ed_pub w) as Hlog.
  unfold buyNFT, try_catch, bind, ret, lift, getPublicKeyAsync, fetch, throw.
  destruct (hexToNumberString (bytesToHex (Uint8Array_from nftId))) as [s|e].
  all: destruct (getPrivateKey ed_pub w) as [[k|e'] w1]; simpl in Hls, Hlog |- *;
    [|split; [exact Hls|left; exact Hlog]].
  all: destruct (Nat.eqb (length k) 32); simpl; [|split; [exact Hls|left; exact Hlog]].
  - destruct (net w1 _); simpl;
      (split; [exact Hls|right; eexists; rewrite Hlog; reflexivity]).
  - split; [exact Hls|left; exact Hlog].
Qed.

(** X16: when the stored key is a byte array whose length is not 32,
    [getPublicKeyAsync] rejects inside [buyNFT], which then resolves
    without sending any request and without changing any state. *)
Theorem buyNFT_bad_stored_key (ed_pub : list Z -> list Z) (paymentSender : string)
    (nftId : list Z) (w : world) (l : list Z) :
  ls_readable w = true ->
  ls w !! private_key_slot = Some (SBytes l) ->
  length l <> 32%nat ->
  buyNFT ed_pub paymentSender nftId w = (Ok tt, w).
Proof.
  intros Hr Hl Hlen.
  destruct (getPrivateKey_stored ed_pub w Hr) as [Hs _].
  unfold buyNFT, try_catch, bind at 1. rewrite (Hs l Hl).
  unfold bind at 1, getPublicKeyAsync. rewrite length_map.
  apply Nat.eqb_neq in Hlen. rewrite Hlen. reflexivity.
Qed.

Lemma buyNFT_bad_stored_key_witness :
  buyNFT demo_pub "addr1" [1; 2; 3] (with_ls w_demo {[private_key_slot := SBytes [1; 2]]})
  = (Ok tt, with_ls w_demo {[private_key_slot := SBytes [1; 2]]}).
Proof.
  apply (buyNFT_bad_stored_key demo_pub "addr1" [1; 2; 3] _ [1; 2]).
  - reflexivity.
  - reflexivity.
  - discriminate.
Defined.
